(** * scripts/transcribe.py: a shallow embedding and its properties

    The script reads [sys.argv], checks that the audio path exists,
    hands the path to the faster-whisper engine and prints the joined
    segment texts.  The engine, the process environment and the file
    system are collaborators of the script: they appear here as records
    of responses, and every call the script makes to them, and every
    write to a standard stream, is logged in a trace of events. *)

From Stdlib Require Import ZArith NArith Ascii String.
From stdpp Require Import base option list countable gmap.

Local Open Scope Z_scope.

(** ** Python strings *)

(** A Python [str] is a sequence of Unicode code points. *)
Abbreviation pystr := (list N).

(** A literal of the source, character by character. *)
Fixpoint py (s : string) : pystr :=
  match s with
  | EmptyString => []
  | String a s' => N_of_ascii a :: py s'
  end.

Arguments py : simpl never.

(** The line feed that [print] appends. *)
Definition LF : N := 10%N.

Module Str.

(** [str.isspace] on one code point: CPython's [_PyUnicode_IsWhitespace]. *)
Definition isspace (c : N) : bool :=
  ((9 <=? c) && (c <=? 13) ||
   (28 <=? c) && (c <=? 32) ||
   (c =? 133) || (c =? 160) || (c =? 5760) ||
   (8192 <=? c) && (c <=? 8202) ||
   (c =? 8232) || (c =? 8233) || (c =? 8239) || (c =? 8287) ||
   (c =? 12288))%N.

(** [s.lstrip()] *)
Fixpoint lstrip (s : pystr) : pystr :=
  match s with
  | [] => []
  | c :: s' => if isspace c then lstrip s' else s
  end.

(** [s.rstrip()] *)
Fixpoint rstrip (s : pystr) : pystr :=
  match s with
  | [] => []
  | c :: s' =>
      match rstrip s' with
      | [] => if isspace c then [] else [c]
      | r => c :: r
      end
  end.

(** [s.strip()]: leading and trailing whitespace removed. *)
Definition strip (s : pystr) : pystr := rstrip (lstrip s).

(** [sep.join(parts)] *)
Fixpoint join (sep : pystr) (parts : list pystr) : pystr :=
  match parts with
  | [] => []
  | p :: ps =>
      match ps with
      | [] => p
      | _ :: _ => p ++ sep ++ join sep ps
      end
  end.

End Str.

(** ** Exceptions and results *)

(** [SystemExit] and [KeyboardInterrupt] are the two exceptions the
    interpreter treats apart when nothing catches them; [Exception] stands
    for any other exception, of class [kind]. *)
Inductive exn : Type :=
  | SystemExit (code : Z)                 (* raised by [sys.exit(code)] *)
  | KeyboardInterrupt                     (* Ctrl-C while the engine works *)
  | IndexError
  | UnicodeEncodeError                    (* a stream cannot encode a text *)
  | Exception (kind : pystr) (msg : pystr).

Inductive result (A : Type) : Type :=
  | Ok (a : A)
  | Raise (e : exn).
Arguments Ok {A} a.
Arguments Raise {A} e.

(** ** The engine (faster-whisper) *)

(** Of a segment the script reads the [text] attribute only. *)
Record Segment : Type := { text : pystr }.

(** [model.transcribe] returns a generator: the segments come one by one
    and decoding can still fail while the script iterates.  The script
    relies on the generator being finite. *)
Inductive SegmentStream : Type :=
  | SNil
  | SCons (segment : Segment) (rest : SegmentStream)
  | SRaise (e : exn).

(** The generator that yields [segs] and then stops. *)
Definition stream_of (segs : list Segment) : SegmentStream :=
  foldr SCons SNil segs.

(** The second component of what [model.transcribe] returns; never read. *)
Record TranscriptionInfo : Type := { language : pystr }.

(** A loaded model: [model.transcribe(audio, beam_size=n)]. *)
Record Model : Type :=
  { model_transcribe :
      pystr -> Z -> result (SegmentStream * TranscriptionInfo) }.

(** The class [WhisperModel(model_size, device=..., compute_type=...)]. *)
Definition WhisperModelClass : Type :=
  pystr -> pystr -> pystr -> result Model.

(** [from faster_whisper import WhisperModel] *)
Record Engine : Type :=
  { faster_whisper_WhisperModel : result WhisperModelClass }.

(** ** The operating system *)

Inductive FileKind : Type := RegularFile | Directory | OtherFile.

(** What there is at a path.  [os.stat] follows symbolic links and needs
    search permission on every directory on the way, so it fails on some
    paths that exist. *)
Inductive PathEntry : Type :=
  | Reachable (kind : FileKind)     (* [os.stat] succeeds and reports [kind] *)
  | DanglingSymlink                 (* a link whose target is missing *)
  | Unsearchable (kind : FileKind). (* behind a directory closed to the process *)

(** [environ] is [os.environ]; [path_entry p] is what there is at [p],
    [None] when nothing is; [stdout_accepts c] tells whether the encoding
    and error handler of [sys.stdout] take the code point [c] outside
    ASCII. *)
Record OS : Type :=
  { environ : gmap pystr pystr;
    path_entry : pystr -> option PathEntry;
    stdout_accepts : N -> bool }.

(** What [os.stat(p)] finds, [None] when it fails. *)
Definition path_stat (os : OS) (p : pystr) : option FileKind :=
  match path_entry os p with
  | Some (Reachable kind) => Some kind
  | _ => None
  end.

(** Whether [sys.stdout] can encode [c]: ASCII always, the rest as the
    stream is set up. *)
Definition stdout_encodes (os : OS) (c : N) : bool :=
  (c <? 128)%N || stdout_accepts os c.

(** Whether [sys.stdout] can encode every character of [s]. *)
Definition stdout_can_encode (os : OS) (s : pystr) : bool :=
  forallb (stdout_encodes os) s.

(** ** Events and the monad of the script *)

Inductive fd : Type := Stdout | Stderr.

Inductive event : Type :=
  | EvPathExists (path : pystr) (found : bool)
  | EvImport
  | EvLoadModel (model_size device compute_type : pystr)
  | EvTranscribe (audio : pystr) (beam_size : Z)
  | EvWrite (f : fd) (data : pystr).

(** A computation logs events and returns or raises. *)
Definition M (A : Type) : Type := (list event * result A)%type.

#[global] Instance M_ret : MRet M := λ A a, ([], Ok a).

#[global] Instance M_bind : MBind M := λ A B f m,
  match m with
  | (t, Ok a) => let '(t', r) := f a in (t ++ t', r)
  | (t, Raise e) => (t, Raise e)
  end.

Definition emit (ev : event) : M unit := ([ev], Ok tt).
Definition raise {A : Type} (e : exn) : M A := ([], Raise e).
Definition lift {A : Type} (r : result A) : M A := ([], r).

Definition trace {A : Type} (m : M A) : list event := fst m.
Definition outcome {A : Type} (m : M A) : result A := snd m.

(** [print(s, file=f)] writes [s] and a line feed.  [sys.stderr] escapes
    what it cannot encode; [sys.stdout] raises and writes nothing. *)
Definition print (os : OS) (f : fd) (s : pystr) : M unit :=
  match f with
  | Stderr => emit (EvWrite Stderr (s ++ [LF]))
  | Stdout =>
      if stdout_can_encode os s then emit (EvWrite Stdout (s ++ [LF]))
      else raise UnicodeEncodeError
  end.

(** [sys.exit(code)] *)
Definition sys_exit {A : Type} (code : Z) : M A := raise (SystemExit code).

(** [os.path.exists(p)]: true when [os.stat(p)] succeeds. *)
Definition os_path_exists (os : OS) (p : pystr) : M bool :=
  let found := bool_decide (is_Some (path_stat os p)) in
  emit (EvPathExists p found);; mret found.

(** [os.environ.get(key, dflt)] *)
Definition environ_get (os : OS) (key dflt : pystr) : pystr :=
  default dflt (environ os !! key).

(** [l[i]] *)
Definition getitem {A : Type} (l : list A) (i : nat) : M A :=
  match l !! i with
  | Some x => mret x
  | None => raise IndexError
  end.

Definition import_WhisperModel (engine : Engine) : M WhisperModelClass :=
  emit EvImport;; lift (faster_whisper_WhisperModel engine).

Definition new_WhisperModel (cls : WhisperModelClass)
    (model_size device compute_type : pystr) : M Model :=
  emit (EvLoadModel model_size device compute_type);;
  lift (cls model_size device compute_type).

Definition call_transcribe (model : Model) (audio : pystr) (beam_size : Z)
    : M (SegmentStream * TranscriptionInfo) :=
  emit (EvTranscribe audio beam_size);;
  lift (model_transcribe model audio beam_size).

(** [for segment in segments: st = body st segment] *)
Fixpoint for_each {S : Type} (segments : SegmentStream)
    (body : S -> Segment -> S) (st : S) : result S :=
  match segments with
  | SNil => Ok st
  | SCons segment rest => for_each rest body (body st segment)
  | SRaise e => Raise e
  end.

(** ** The script *)

(** [def transcribe(audio_path)] *)
Definition transcribe (os : OS) (engine : Engine) (audio_path : pystr)
    : M pystr :=
  WhisperModel ← import_WhisperModel engine;
  let model_size := environ_get os (py "WHISPER_MODEL") (py "small") in
  model ← new_WhisperModel WhisperModel model_size (py "cpu") (py "int8");
  '(segments, info) ← call_transcribe model audio_path 5;
  text_parts ← lift (for_each segments
                       (λ text_parts segment,
                          text_parts ++ [Str.strip (text segment)]) []);
  mret (Str.join (py " ") text_parts).

Arguments transcribe : simpl never.

(** The block under [if __name__ == "__main__"]. *)
Definition main (argv : list pystr) (os : OS) (engine : Engine) : M unit :=
  if bool_decide (length argv < 2)%nat then
    print os Stderr (py "Usage: transcribe.py <audio_file>");;
    sys_exit 1
  else
    audio_file ← getitem argv 1;
    found ← os_path_exists os audio_file;
    if negb found then
      print os Stderr (py "File not found: " ++ audio_file);;
      sys_exit 1
    else
      result ← transcribe os engine audio_file;
      print os Stdout result.

(** ** What the process shows *)

(** Everything the script writes to one of the standard streams, in
    order. *)
Fixpoint written (f : fd) (t : list event) : pystr :=
  match t with
  | [] => []
  | EvWrite f' data :: t' =>
      match f, f' with
      | Stdout, Stdout | Stderr, Stderr => data ++ written f t'
      | _, _ => written f t'
      end
  | _ :: t' => written f t'
  end.

(** The exit status the invoking shell sees (POSIX): 0 when the script
    runs to its end; for an uncaught [SystemExit] the low byte of its
    code, the code being cut to a C [int] first and taken as -1 when it
    does not fit a C [long long]; 128 + SIGINT for an uncaught
    [KeyboardInterrupt], on which the interpreter ends itself by that
    signal; 1 for any other uncaught exception.  The traceback the
    interpreter prints for the last two is not modelled. *)
Definition exit_status {A : Type} (r : result A) : Z :=
  match r with
  | Ok _ => 0
  | Raise (SystemExit code) =>
      if (- 2 ^ 63 <=? code) && (code <? 2 ^ 63) then code mod 256 else 255
  | Raise KeyboardInterrupt => 130
  | Raise _ => 1
  end.

Definition is_engine_event (ev : event) : bool :=
  match ev with
  | EvImport | EvLoadModel _ _ _ | EvTranscribe _ _ => true
  | _ => false
  end.

(** The calls made to the engine, in order. *)
Definition engine_calls (t : list event) : list event :=
  filter (λ ev, is_engine_event ev = true) t.

(** ** Vocabulary of the properties *)

(** The tier the script asks for. *)
Definition requested_size (os : OS) : pystr :=
  environ_get os (py "WHISPER_MODEL") (py "small").

(** The engine answers the script's request for [audio_path] with the
    segments [segs]: import, model load and transcription succeed and the
    generator yields [segs] and stops. *)
Definition engine_yields (os : OS) (engine : Engine) (audio_path : pystr)
    (segs : list Segment) : Prop :=
  ∃ cls model info,
    faster_whisper_WhisperModel engine = Ok cls ∧
    cls (requested_size os) (py "cpu") (py "int8") = Ok model ∧
    model_transcribe model audio_path 5 = Ok (stream_of segs, info).

(** Iterating the generator raises [e]. *)
Inductive stream_raises : SegmentStream -> exn -> Prop :=
  | raises_here e : stream_raises (SRaise e) e
  | raises_later segment rest e :
      stream_raises rest e -> stream_raises (SCons segment rest) e.

(** The engine raises [e] somewhere while serving the script's request:
    at the import, at the model load, at the call of [model.transcribe],
    or while the segments are iterated. *)
Inductive engine_raises (os : OS) (engine : Engine) (audio_path : pystr)
    : exn -> Prop :=
  | raises_import e :
      faster_whisper_WhisperModel engine = Raise e ->
      engine_raises os engine audio_path e
  | raises_load cls e :
      faster_whisper_WhisperModel engine = Ok cls ->
      cls (requested_size os) (py "cpu") (py "int8") = Raise e ->
      engine_raises os engine audio_path e
  | raises_transcribe cls model e :
      faster_whisper_WhisperModel engine = Ok cls ->
      cls (requested_size os) (py "cpu") (py "int8") = Ok model ->
      model_transcribe model audio_path 5 = Raise e ->
      engine_raises os engine audio_path e
  | raises_iteration cls model segments info e :
      faster_whisper_WhisperModel engine = Ok cls ->
      cls (requested_size os) (py "cpu") (py "int8") = Ok model ->
      model_transcribe model audio_path 5 = Ok (segments, info) ->
      stream_raises segments e ->
      engine_raises os engine audio_path e.

(** Standard output is one line: some text without a line feed, followed
    by the line feed of [print]. *)
Definition single_line (out : pystr) : Prop :=
  ∃ line, out = line ++ [LF] ∧ LF ∉ line.

(** Every character of [s] is whitespace. *)
Definition blank (s : pystr) : Prop := Forall (λ c, Str.isspace c = true) s.

(** The characters of [s] that are not whitespace, in order. *)
Definition visible (s : pystr) : pystr :=
  filter (λ c, Str.isspace c = false) s.

(** What [print(result)] adds to the run of [transcribe]. *)
Definition printed (os : OS) (run : M pystr) : M unit :=
  (trace run ++ match outcome run with
                | Ok result =>
                    if stdout_can_encode os result
                    then [EvWrite Stdout (result ++ [LF])]
                    else []
                | Raise _ => []
                end,
   match outcome run with
   | Ok result =>
       if stdout_can_encode os result then Ok tt
       else Raise UnicodeEncodeError
   | Raise e => Raise e
   end).

(** ** Stand-ins used in the examples *)

(** An engine that loads any model and yields segments with the [texts]. *)
Definition engine_returning (texts : list pystr) : Engine :=
  {| faster_whisper_WhisperModel :=
       Ok (λ _ _ _,
             Ok {| model_transcribe := λ _ _,
                     Ok (stream_of (map Build_Segment texts),
                         {| language := py "en" |}) |}) |}.

(** An engine whose model load fails. *)
Definition engine_failing_load (e : exn) : Engine :=
  {| faster_whisper_WhisperModel := Ok (λ _ _ _, Raise e) |}.

(** An engine whose generator fails after the segments with [texts]. *)
Definition engine_failing_late (texts : list pystr) (e : exn) : Engine :=
  {| faster_whisper_WhisperModel :=
       Ok (λ _ _ _,
             Ok {| model_transcribe := λ _ _,
                     Ok (foldr SCons (SRaise e) (map Build_Segment texts),
                         {| language := py "en" |}) |}) |}.

(** A machine with the file [sample.wav], the directory [recordings],
    the file [private/talk.wav] in a directory closed to the process, the
    dangling link [latest.wav], the environment [env] and a UTF-8
    [sys.stdout], which takes every code point but the surrogates. *)
Definition machine (env : gmap pystr pystr) : OS :=
  {| environ := env;
     path_entry := λ p,
       if decide (p = py "sample.wav") then Some (Reachable RegularFile)
       else if decide (p = py "recordings") then Some (Reachable Directory)
       else if decide (p = py "private/talk.wav")
            then Some (Unsearchable RegularFile)
       else if decide (p = py "latest.wav") then Some DanglingSymlink
       else None;
     stdout_accepts := λ c,
       ((c <? 55296) || (57343 <? c) && (c <=? 1114111))%N |}.

(** ** Strings: facts about [strip] and [join] *)

Section StringFacts.

Implicit Types (s sep : pystr) (parts : list pystr) (c : N).

Lemma blank_cons c s : blank (c :: s) ↔ Str.isspace c = true ∧ blank s.
Proof. exact (Forall_cons (λ c, Str.isspace c = true) c s). Qed.

Lemma blank_nil : blank [].
Proof. constructor. Qed.

Lemma blank_app s1 s2 : blank (s1 ++ s2) ↔ blank s1 ∧ blank s2.
Proof. exact (Forall_app (λ c, Str.isspace c = true) s1 s2). Qed.

Lemma lstrip_nil_iff s : Str.lstrip s = [] ↔ blank s.
Proof.
  induction s as [|c s IH]; simpl.
  - split; [intros _; apply blank_nil | reflexivity].
  - rewrite blank_cons. destruct (Str.isspace c) eqn:Hc.
    + rewrite IH. tauto.
    + split; [discriminate | intros [? _]; discriminate].
Qed.

Lemma rstrip_nil_iff s : Str.rstrip s = [] ↔ blank s.
Proof.
  induction s as [|c s IH]; simpl.
  - split; [intros _; apply blank_nil | reflexivity].
  - rewrite blank_cons. destruct (Str.rstrip s) as [|d r] eqn:Hr.
    + destruct (Str.isspace c) eqn:Hc.
      * split; [intros _; split; [done | by apply IH] | done].
      * split; [discriminate | intros [? _]; discriminate].
    + split; [discriminate |].
      intros [_ Hs]. apply IH in Hs. discriminate.
Qed.

Lemma lstrip_suffix s : ∃ pre, s = pre ++ Str.lstrip s ∧ blank pre.
Proof.
  induction s as [|c s (pre & Hs & Hpre)]; simpl.
  - exists []. split; [done | apply blank_nil].
  - destruct (Str.isspace c) eqn:Hc.
    + exists (c :: pre). split; [simpl; congruence | by apply blank_cons].
    + exists []. split; [done | apply blank_nil].
Qed.

Lemma rstrip_prefix s : ∃ post, s = Str.rstrip s ++ post ∧ blank post.
Proof.
  induction s as [|c s (post & Hs & Hpost)]; simpl.
  - exists []. split; [done | apply blank_nil].
  - destruct (Str.rstrip s) as [|d r] eqn:Hr.
    + destruct (Str.isspace c) eqn:Hc.
      * exists (c :: post). simpl in Hs.
        split; [simpl; congruence | by apply blank_cons].
      * exists post. simpl in *. split; [congruence | done].
    + exists post. simpl in *. split; [congruence | done].
Qed.

(** [strip] only removes whitespace from the two ends. *)
Lemma strip_decompose s :
  ∃ pre post, s = pre ++ Str.strip s ++ post ∧ blank pre ∧ blank post.
Proof.
  destruct (lstrip_suffix s) as (pre & Hs & Hpre).
  destruct (rstrip_prefix (Str.lstrip s)) as (post & Hl & Hpost).
  exists pre, post. unfold Str.strip. by rewrite <- Hl.
Qed.

Lemma strip_nil_iff s : Str.strip s = [] ↔ blank s.
Proof.
  unfold Str.strip. rewrite rstrip_nil_iff. split.
  - intros Hl. destruct (lstrip_suffix s) as (pre & Hs & Hpre).
    rewrite Hs. by apply blank_app.
  - intros Hs. apply lstrip_nil_iff in Hs. rewrite Hs. apply blank_nil.
Qed.

Lemma strip_subseteq s c : c ∈ Str.strip s → c ∈ s.
Proof.
  intros Hc. destruct (strip_decompose s) as (pre & post & Hs & _ & _).
  rewrite Hs. set_solver.
Qed.

Lemma join_cons sep p q parts :
  Str.join sep (p :: q :: parts) = p ++ sep ++ Str.join sep (q :: parts).
Proof. reflexivity. Qed.

Lemma join_nil_iff sep parts :
  sep ≠ [] → Str.join sep parts = [] ↔ parts = [] ∨ parts = [[]].
Proof.
  intros Hsep. destruct parts as [|p [|q parts]].
  - simpl. split; [by left | done].
  - simpl. split; [intros ->; by right | by intros [[=] | [= ->]]].
  - rewrite join_cons. split.
    + intros H. apply app_eq_nil in H as [_ H].
      apply app_eq_nil in H as [? _]. done.
    + intros [?|?]; discriminate.
Qed.

Lemma elem_of_join sep parts c :
  c ∈ Str.join sep parts ↔
  (∃ p, p ∈ parts ∧ c ∈ p) ∨ (c ∈ sep ∧ (2 ≤ length parts)%nat).
Proof.
  induction parts as [|p [|q parts] IH].
  - simpl. split; [by intros ?%elem_of_nil|].
    intros [(p & Hp%elem_of_nil & _)|[_ ?]]; [done | simpl in *; lia].
  - simpl. split; [intros ?; left; exists p; split; [by left | done]|].
    intros [(p' & Hp & ?)|[_ ?]]; [|simpl in *; lia].
    apply list_elem_of_singleton in Hp. by subst.
  - rewrite join_cons, !elem_of_app, IH. split.
    + intros [?|[?|[(p' & ? & ?)|[? _]]]].
      * left. exists p. split; [by left | done].
      * right. simpl. split; [done | lia].
      * left. exists p'. split; [by right | done].
      * right. simpl. split; [done | lia].
    + intros [(p' & Hp & ?)|[? _]]; [|by right; left].
      apply elem_of_cons in Hp as [->|Hp]; [by left|].
      right; right; left. by exists p'.
Qed.

End StringFacts.

(** ** The loop and the run of [transcribe] *)

Lemma for_each_stream_of {S : Type} (body : S -> Segment -> S) segs st :
  for_each (stream_of segs) body st = Ok (foldl body st segs).
Proof.
  revert st. induction segs as [|seg segs IH]; intros st; simpl; [done|].
  apply IH.
Qed.

Lemma foldl_append_strip segs acc :
  foldl (λ text_parts segment, text_parts ++ [Str.strip (text segment)])
    acc segs
  = acc ++ map (λ segment, Str.strip (text segment)) segs.
Proof.
  revert acc. induction segs as [|seg segs IH]; intros acc; simpl.
  - by rewrite app_nil_r.
  - by rewrite IH, <- app_assoc.
Qed.

(** When the engine yields [segs], [transcribe] makes its three calls and
    returns the joined texts. *)
Lemma transcribe_run os engine audio_path segs :
  engine_yields os engine audio_path segs →
  transcribe os engine audio_path =
    ([EvImport;
      EvLoadModel (requested_size os) (py "cpu") (py "int8");
      EvTranscribe audio_path 5],
     Ok (Str.join (py " ")
           (map (λ segment, Str.strip (text segment)) segs))).
Proof.
  intros (cls & model & info & Hcls & Hmodel & Hsegs).
  unfold transcribe, import_WhisperModel, new_WhisperModel, call_transcribe,
    requested_size in *.
  cbn. rewrite Hcls. cbn. rewrite Hmodel. cbn. rewrite Hsegs. cbn.
  rewrite for_each_stream_of, foldl_append_strip. reflexivity.
Qed.

(** ** The calls of [transcribe], whatever the engine answers *)

(** Case analysis on membership in an explicit list of events. *)
Ltac members H :=
  repeat (apply elem_of_cons in H as [H|H]);
  try (apply elem_of_nil in H; destruct H);
  simplify_eq.

(** The calls [transcribe] makes before the engine's first failure. *)
Lemma transcribe_trace os engine audio_path :
  trace (transcribe os engine audio_path) =
    EvImport ::
    match faster_whisper_WhisperModel engine with
    | Raise _ => []
    | Ok cls =>
        EvLoadModel (requested_size os) (py "cpu") (py "int8") ::
        match cls (requested_size os) (py "cpu") (py "int8") with
        | Raise _ => []
        | Ok model => [EvTranscribe audio_path 5]
        end
    end.
Proof.
  unfold transcribe, import_WhisperModel, new_WhisperModel, call_transcribe,
    requested_size.
  cbn. destruct (faster_whisper_WhisperModel engine) as [cls|e]; cbn; [|done].
  destruct (cls _ _ _) as [model|e]; cbn; [|done].
  destruct (model_transcribe model audio_path 5) as [[segments info]|e];
    cbn; [|done].
  by destruct (for_each segments _ []).
Qed.

Lemma for_each_raises {S : Type} (body : S -> Segment -> S) segments st e :
  for_each segments body st = Raise e ↔ stream_raises segments e.
Proof.
  revert st. induction segments as [|segment rest IH|e']; intros st; simpl.
  - split; [discriminate | inversion 1].
  - rewrite IH. split; [by constructor | by inversion 1].
  - split; [intros [= ->]; constructor | by inversion 1].
Qed.

(** A generator either yields some segments and stops, or raises. *)
Lemma stream_ends segments :
  (∃ segs, segments = stream_of segs) ∨ (∃ e, stream_raises segments e).
Proof.
  induction segments as [|segment rest [[segs ->] | [e He]]|e].
  - left. by exists [].
  - left. by exists (segment :: segs).
  - right. exists e. by constructor.
  - right. exists e. constructor.
Qed.

(** [transcribe] raises what the engine raises, and only then. *)
Lemma transcribe_raises os engine audio_path e :
  outcome (transcribe os engine audio_path) = Raise e
  ↔ engine_raises os engine audio_path e.
Proof.
  unfold transcribe, import_WhisperModel, new_WhisperModel, call_transcribe.
  fold (requested_size os). cbn.
  destruct (faster_whisper_WhisperModel engine) as [cls|e1] eqn:Hcls; cbn.
  2:{ split; [intros [= ->]; by apply raises_import|].
      inversion 1; congruence. }
  destruct (cls _ _ _) as [model|e2] eqn:Hmodel; cbn.
  2:{ split; [intros [= ->]; by eapply raises_load|].
      inversion 1; congruence. }
  destruct (model_transcribe model audio_path 5) as [[segments info]|e3]
    eqn:Hcall; cbn.
  2:{ split; [intros [= ->]; by eapply raises_transcribe|].
      inversion 1; congruence. }
  destruct (for_each segments _ []) as [parts|e4] eqn:Hloop; cbn.
  - split; [discriminate|]. intros Hraises. exfalso.
    assert (Hloop' : for_each segments
              (λ text_parts segment,
                 text_parts ++ [Str.strip (text segment)]) [] = Raise e);
      [|congruence].
    apply for_each_raises.
    inversion Hraises as [| | |cls' model' segments' info' e' H1 H2 H3 H4];
      congruence.
  - apply for_each_raises in Hloop. split.
    + intros [= ->]. by eapply raises_iteration.
    + inversion 1 as [| | |cls' model' segments' info' e' H1 H2 H3 H4];
        try congruence.
      assert (model' = model) as -> by congruence.
      assert (segments' = segments) as -> by congruence.
      f_equal. clear -Hloop H4.
      induction Hloop; inversion H4; subst; auto.
Qed.

Lemma written_app f t1 t2 :
  written f (t1 ++ t2) = written f t1 ++ written f t2.
Proof.
  induction t1 as [|ev t1 IH]; simpl; [done|].
  destruct ev as [| | | |f' data]; try done.
  destruct f, f'; simpl; by rewrite ?IH, ?app_assoc.
Qed.

(** [transcribe] writes to neither stream. *)
Lemma transcribe_silent f os engine audio_path :
  written f (trace (transcribe os engine audio_path)) = [].
Proof.
  rewrite transcribe_trace.
  destruct (faster_whisper_WhisperModel engine) as [cls|?]; [|done].
  by destruct (cls _ _ _).
Qed.

(** ** Properties of [transcribe] *)

(** C1: whatever segments the engine yields, [transcribe] returns their
    texts, each stripped of surrounding whitespace, joined in the same
    order with single spaces; for the segments ["  hello "] and
    ["world  "] the result is exactly ["hello world"]. *)
Theorem transcribe_joins_stripped_segments os engine audio_path segs :
  engine_yields os engine audio_path segs →
  outcome (transcribe os engine audio_path) =
    Ok (Str.join (py " ") (map (λ segment, Str.strip (text segment)) segs))
  ∧ (map text segs = [py "  hello "; py "world  "] →
     outcome (transcribe os engine audio_path) = Ok (py "hello world")).
Proof.
  intros Hrun. rewrite (transcribe_run _ _ _ _ Hrun). split; [done|].
  intros Htexts. unfold outcome; simpl. f_equal.
  rewrite <- (map_map text Str.strip), Htexts. reflexivity.
Qed.

Lemma transcribe_joins_stripped_segments_witness :
  engine_yields (machine ∅)
    (engine_returning [py "  hello "; py "world  "]) (py "sample.wav")
    [{| text := py "  hello " |}; {| text := py "world  " |}]
  ∧ outcome (transcribe (machine ∅)
               (engine_returning [py "  hello "; py "world  "])
               (py "sample.wav")) = Ok (py "hello world").
Proof.
  assert (Hrun : engine_yields (machine ∅)
            (engine_returning [py "  hello "; py "world  "])
            (py "sample.wav")
            [{| text := py "  hello " |}; {| text := py "world  " |}]).
  { eexists _, _, _. repeat split. }
  split; [exact Hrun|].
  apply (transcribe_joins_stripped_segments _ _ _ _ Hrun). reflexivity.
Defined.

(** C2, as stated, fails: one segment of two spaces gives the empty
    string although the engine returned a segment. *)
Lemma empty_result_from_blank_segment :
  ¬ (∀ os engine audio_path segs,
       engine_yields os engine audio_path segs →
       outcome (transcribe os engine audio_path) = Ok [] →
       segs = []).
Proof.
  intros Hclaim.
  specialize (Hclaim (machine ∅) (engine_returning [py "  "])
                (py "sample.wav") [{| text := py "  " |}]).
  assert (Hnil : [{| text := py "  " |}] = []); [|discriminate Hnil].
  apply Hclaim; [|reflexivity].
  eexists _, _, _. repeat split.
Qed.

(** C2, amended: when the engine yields [segs], the result is empty
    exactly when there is no segment, or a single segment whose text is
    empty or all whitespace. *)
Theorem transcribe_empty_iff os engine audio_path segs :
  engine_yields os engine audio_path segs →
  (outcome (transcribe os engine audio_path) = Ok [] ↔
   segs = [] ∨ ∃ segment, segs = [segment] ∧ blank (text segment)).
Proof.
  intros Hrun. rewrite (transcribe_run _ _ _ _ Hrun). unfold outcome; simpl.
  split.
  - intros [= Hjoin]. apply join_nil_iff in Hjoin; [|discriminate].
    destruct Hjoin as [Hmap | Hmap].
    + left. by apply map_eq_nil in Hmap.
    + right. destruct segs as [|segment [|? ?]]; try discriminate.
      exists segment. split; [done|].
      injection Hmap as Hstrip. by apply strip_nil_iff.
  - intros [-> | (segment & -> & Hblank)]; [done|].
    simpl. by apply strip_nil_iff in Hblank as ->.
Qed.

Lemma transcribe_empty_iff_witness :
  engine_yields (machine ∅) (engine_returning [py "hi"; py ""])
    (py "sample.wav") [{| text := py "hi" |}; {| text := py "" |}]
  ∧ outcome (transcribe (machine ∅) (engine_returning [py "hi"; py ""])
               (py "sample.wav")) ≠ Ok [].
Proof.
  assert (Hrun : engine_yields (machine ∅)
            (engine_returning [py "hi"; py ""]) (py "sample.wav")
            [{| text := py "hi" |}; {| text := py "" |}]).
  { eexists _, _, _. repeat split. }
  split; [exact Hrun|].
  intros Hempty.
  apply (transcribe_empty_iff _ _ _ _ Hrun) in Hempty.
  destruct Hempty as [Hnil | (segment & Hone & _)]; discriminate.
Defined.

(** C5: on every call [transcribe] imports the engine, instantiates the
    model with the tier of [WHISPER_MODEL], or ["small"] when the
    variable is unset, for device ["cpu"] and compute type ["int8"], and
    asks the model so obtained to transcribe [audio_path] with beam size
    5.  The calls made are these, up to the first one the engine fails,
    and [transcribe] returns exactly when the engine answers all of them
    at these arguments. *)
Theorem transcribe_engine_configuration os engine audio_path :
  let model_size := match environ os !! py "WHISPER_MODEL" with
                    | Some tier => tier
                    | None => py "small"
                    end in
  trace (transcribe os engine audio_path) =
    EvImport ::
    match faster_whisper_WhisperModel engine with
    | Raise _ => []
    | Ok cls =>
        EvLoadModel model_size (py "cpu") (py "int8") ::
        match cls model_size (py "cpu") (py "int8") with
        | Raise _ => []
        | Ok model => [EvTranscribe audio_path 5]
        end
    end
  ∧ ((∃ result, outcome (transcribe os engine audio_path) = Ok result) ↔
     ∃ cls model segs info,
       faster_whisper_WhisperModel engine = Ok cls
       ∧ cls model_size (py "cpu") (py "int8") = Ok model
       ∧ model_transcribe model audio_path 5 = Ok (stream_of segs, info)).
Proof.
  cbv zeta. split; [exact (transcribe_trace os engine audio_path)|]. split.
  - intros [result Hresult].
    assert (Hnever : ∀ e, ¬ engine_raises os engine audio_path e).
    { intros e He%transcribe_raises. congruence. }
    destruct (faster_whisper_WhisperModel engine) as [cls|e] eqn:Hcls;
      [|by destruct (Hnever e); apply raises_import].
    destruct (cls (requested_size os) (py "cpu") (py "int8"))
      as [model|e] eqn:Hmodel;
      [|by destruct (Hnever e); eapply raises_load].
    destruct (model_transcribe model audio_path 5)
      as [[segments info]|e] eqn:Hcall;
      [|by destruct (Hnever e); eapply raises_transcribe].
    destruct (stream_ends segments) as [[segs ->] | [e He]];
      [|by destruct (Hnever e); eapply raises_iteration].
    by exists cls, model, segs, info.
  - intros (cls & model & segs & info & Hcls & Hmodel & Hcall).
    assert (Hrun : engine_yields os engine audio_path segs)
      by (by exists cls, model, info).
    rewrite (transcribe_run _ _ _ _ Hrun). by eexists.
Qed.

Lemma transcribe_engine_configuration_witness :
  trace (transcribe (machine {[ py "WHISPER_MODEL" := py "tiny" ]})
           (engine_returning [py "hi"]) (py "sample.wav"))
  = [EvImport;
     EvLoadModel (py "tiny") (py "cpu") (py "int8");
     EvTranscribe (py "sample.wav") 5].
Proof.
  exact (proj1 (transcribe_engine_configuration
                  (machine {[ py "WHISPER_MODEL" := py "tiny" ]})
                  (engine_returning [py "hi"]) (py "sample.wav"))).
Defined.

(** C7: [transcribe] never looks at the file system: it asks for no
    existence check and runs the same on every file system (and with
    every standard output).  It raises
    [e] exactly when the engine raises [e] (at the import, the model
    load, the transcription call or during the iteration), and so it
    raises if and only if the engine does. *)
Theorem transcribe_propagates_engine_failures os engine audio_path :
  (∀ path found,
     EvPathExists path found ∉ trace (transcribe os engine audio_path))
  ∧ (∀ entries accepts,
       transcribe {| environ := environ os; path_entry := entries;
                     stdout_accepts := accepts |}
         engine audio_path
       = transcribe os engine audio_path)
  ∧ (∀ e,
       outcome (transcribe os engine audio_path) = Raise e
       ↔ engine_raises os engine audio_path e)
  ∧ ((∃ e, outcome (transcribe os engine audio_path) = Raise e)
     ↔ (∃ e, engine_raises os engine audio_path e)).
Proof.
  split; [|split; [|split]].
  - intros path found. rewrite transcribe_trace.
    intros Hin.
    destruct (faster_whisper_WhisperModel engine) as [cls|?];
      [|by members Hin].
    destruct (cls _ _ _); by members Hin.
  - reflexivity.
  - apply transcribe_raises.
  - split; intros [e He]; exists e; by apply transcribe_raises.
Qed.

Lemma transcribe_propagates_engine_failures_witness :
  outcome (transcribe (machine ∅)
             (engine_failing_late [py "hi"]
                (Exception (py "RuntimeError") (py "decode")))
             (py "missing.wav"))
  = Raise (Exception (py "RuntimeError") (py "decode")).
Proof.
  apply (proj1 (proj2 (proj2 (transcribe_propagates_engine_failures
           (machine ∅)
           (engine_failing_late [py "hi"]
              (Exception (py "RuntimeError") (py "decode")))
           (py "missing.wav"))))).
  eapply raises_iteration; [reflexivity..|].
  simpl. apply raises_later, raises_here.
Defined.

(** A model load that fails ends [transcribe] there: the exception comes
    out as it is and no transcription is asked for. *)
Example load_failure_stops_transcribe :
  transcribe (machine ∅)
    (engine_failing_load (Exception (py "RuntimeError") (py "no weights")))
    (py "sample.wav")
  = ([EvImport; EvLoadModel (py "small") (py "cpu") (py "int8")],
     Raise (Exception (py "RuntimeError") (py "no weights"))).
Proof. reflexivity. Qed.

(** ** The run of [main] *)

(** With at least one argument, [main] looks the first one up and either
    reports it missing or prints what [transcribe] returns. *)
Lemma main_args prog p rest os engine :
  main (prog :: p :: rest) os engine =
    match path_stat os p with
    | None =>
        ([EvPathExists p false;
          EvWrite Stderr ((py "File not found: " ++ p) ++ [LF])],
         Raise (SystemExit 1))
    | Some _ =>
        (EvPathExists p true
           :: trace (printed os (transcribe os engine p)),
         outcome (printed os (transcribe os engine p)))
    end.
Proof.
  unfold main, printed.
  rewrite bool_decide_eq_false_2 by (simpl; lia).
  cbn. destruct (path_stat os p) as [kind|]; cbn; [|reflexivity].
  destruct (transcribe os engine p) as [t [result|e]]; cbn.
  - destruct (stdout_can_encode os result); cbn; [reflexivity|].
    by rewrite app_nil_r.
  - by rewrite app_nil_r.
Qed.

(** ** Properties of the command line *)

(** C3: with no argument on the command line the script prints the
    usage line to stderr, exits with status 1 and writes nothing to
    stdout. *)
Theorem main_usage argv os engine :
  (length argv < 2)%nat →
  let run := main argv os engine in
  written Stderr (trace run) = py "Usage: transcribe.py <audio_file>" ++ [LF]
  ∧ outcome run = Raise (SystemExit 1)
  ∧ exit_status (outcome run) = 1
  ∧ written Stdout (trace run) = [].
Proof.
  intros Hlen. unfold main. rewrite bool_decide_eq_true_2 by done.
  cbn. by rewrite app_nil_r.
Qed.

Lemma main_usage_witness :
  (length [py "transcribe.py"] < 2)%nat
  ∧ written Stderr (trace (main [py "transcribe.py"] (machine ∅)
                             (engine_returning [py "hi"])))
    = py "Usage: transcribe.py <audio_file>" ++ [LF].
Proof.
  assert (Hlen : (length [py "transcribe.py"] < 2)%nat) by (simpl; lia).
  split; [exact Hlen|].
  apply (main_usage _ (machine ∅) (engine_returning [py "hi"]) Hlen).
Defined.

(** C4: with one argument [p] that names no existing path the script
    prints ["File not found: p"] to stderr, exits with status 1 and
    writes nothing to stdout. *)
Theorem main_file_not_found prog p os engine :
  path_stat os p = None →
  let run := main [prog; p] os engine in
  written Stderr (trace run) = (py "File not found: " ++ p) ++ [LF]
  ∧ outcome run = Raise (SystemExit 1)
  ∧ exit_status (outcome run) = 1
  ∧ written Stdout (trace run) = [].
Proof.
  intros Hstat. cbv zeta. rewrite main_args, Hstat.
  cbn. by rewrite app_nil_r.
Qed.

Lemma main_file_not_found_witness :
  path_stat (machine ∅) (py "missing.wav") = None
  ∧ written Stderr (trace (main [py "transcribe.py"; py "missing.wav"]
                             (machine ∅) (engine_returning [py "hi"])))
    = py "File not found: missing.wav" ++ [LF].
Proof.
  assert (Hstat : path_stat (machine ∅) (py "missing.wav") = None)
    by reflexivity.
  split; [exact Hstat|].
  apply (main_file_not_found (py "transcribe.py") _ _
           (engine_returning [py "hi"]) Hstat).
Defined.

(** C6, as stated, fails: a segment whose text has a line feed between
    two words is printed with that line feed, so stdout has two lines. *)
Lemma newline_inside_segment_is_printed :
  ¬ (∀ prog p os engine segs,
       is_Some (path_stat os p) →
       engine_yields os engine p segs →
       single_line (written Stdout (trace (main [prog; p] os engine)))).
Proof.
  intros Hclaim.
  destruct (Hclaim (py "transcribe.py") (py "sample.wav") (machine ∅)
              (engine_returning [py "a" ++ [LF] ++ py "b"])
              [{| text := py "a" ++ [LF] ++ py "b" |}])
    as (line & Hout & Hline).
  - by eexists.
  - eexists _, _, _. repeat split.
  - change (written Stdout _) with ((py "a" ++ [LF] ++ py "b") ++ [LF])
      in Hout.
    apply app_inj_tail in Hout as [<- _].
    apply Hline. set_solver.
Qed.

(** C6, amended: when the path exists and the engine yields [segs], what
    happens next depends on the transcript only.  If standard output can
    encode it, the script ends with status 0, writes nothing to stderr,
    and writes to stdout the joined transcript followed by one line feed;
    if not, [print] raises, nothing is written and the status is 1.  The
    transcript holds a line feed exactly when the stripped text of some
    segment does, so stdout is a single line when the transcript is
    printed and no stripped segment text has one. *)
Theorem main_success_output prog p os engine segs :
  is_Some (path_stat os p) →
  engine_yields os engine p segs →
  let run := main [prog; p] os engine in
  let transcript :=
    Str.join (py " ") (map (λ segment, Str.strip (text segment)) segs) in
  (stdout_can_encode os transcript = true →
     outcome run = Ok tt
     ∧ exit_status (outcome run) = 0
     ∧ written Stdout (trace run) = transcript ++ [LF]
     ∧ written Stderr (trace run) = [])
  ∧ (stdout_can_encode os transcript = false →
     outcome run = Raise UnicodeEncodeError
     ∧ exit_status (outcome run) = 1
     ∧ written Stdout (trace run) = [])
  ∧ (LF ∈ transcript ↔
     ∃ segment, segment ∈ segs ∧ LF ∈ Str.strip (text segment))
  ∧ (stdout_can_encode os transcript = true →
     (∀ segment, segment ∈ segs → LF ∉ Str.strip (text segment)) →
     single_line (written Stdout (trace run))).
Proof.
  intros [kind Hstat] Hrun. cbv zeta.
  assert (Hlf : LF ∈ Str.join (py " ")
                  (map (λ segment, Str.strip (text segment)) segs)
                ↔ ∃ segment, segment ∈ segs ∧ LF ∈ Str.strip (text segment)).
  { rewrite elem_of_join. split.
    - intros [(part & Hpart & Hin) | [Hsep _]].
      + apply list_elem_of_fmap in Hpart as (segment & -> & Hseg). eauto.
      + apply list_elem_of_singleton in Hsep. discriminate.
    - intros (segment & Hseg & Hin). left.
      exists (Str.strip (text segment)). split; [|done].
      apply list_elem_of_fmap. eauto. }
  rewrite main_args, Hstat. unfold printed.
  rewrite (transcribe_run _ _ _ _ Hrun).
  unfold trace, outcome. simpl fst; simpl snd.
  split; [|split; [|split]].
  - intros ->. cbn. by rewrite app_nil_r.
  - intros ->. done.
  - exact Hlf.
  - intros -> Hnone. cbn. rewrite app_nil_r.
    eexists. split; [reflexivity|].
    rewrite Hlf. intros (segment & Hseg & Hin). by apply (Hnone segment).
Qed.

Lemma main_success_output_witness :
  is_Some (path_stat (machine ∅) (py "sample.wav"))
  ∧ engine_yields (machine ∅)
      (engine_returning [py "Hi"; py "there"; py "friend"])
      (py "sample.wav")
      (map Build_Segment [py "Hi"; py "there"; py "friend"])
  ∧ stdout_can_encode (machine ∅) (py "Hi there friend") = true
  ∧ written Stdout (trace (main [py "transcribe.py"; py "sample.wav"]
                             (machine ∅)
                             (engine_returning
                                [py "Hi"; py "there"; py "friend"])))
    = py "Hi there friend" ++ [LF].
Proof.
  assert (Hstat : is_Some (path_stat (machine ∅) (py "sample.wav")))
    by (by eexists).
  assert (Hrun : engine_yields (machine ∅)
            (engine_returning [py "Hi"; py "there"; py "friend"])
            (py "sample.wav")
            (map Build_Segment [py "Hi"; py "there"; py "friend"])).
  { eexists _, _, _. repeat split. }
  assert (Henc : stdout_can_encode (machine ∅) (py "Hi there friend") = true)
    by reflexivity.
  split; [exact Hstat|]. split; [exact Hrun|]. split; [exact Henc|].
  apply (proj1 (main_success_output (py "transcribe.py") _ _ _ _ Hstat Hrun)
           Henc).
Defined.

(** A transcript that standard output cannot encode (here a lone
    surrogate on a UTF-8 stream) is not printed: the run ends with the
    encoding error and status 1. *)
Example unencodable_transcript_not_printed :
  main [py "transcribe.py"; py "sample.wav"] (machine ∅)
    (engine_returning [[56448%N]])
  = ([EvPathExists (py "sample.wav") true; EvImport;
      EvLoadModel (py "small") (py "cpu") (py "int8");
      EvTranscribe (py "sample.wav") 5],
     Raise UnicodeEncodeError).
Proof. reflexivity. Qed.

(** C8: on the two error paths (no argument, or a first argument that
    names no existing path) the run makes no call to the engine; and in
    every run, whatever precedes an engine call includes the existence
    check of the first argument, answered positively. *)
Theorem no_engine_call_on_error_paths argv os engine :
  ((length argv < 2)%nat
   ∨ (∃ p, argv !! 1%nat = Some p ∧ path_stat os p = None) →
   engine_calls (trace (main argv os engine)) = [])
  ∧ (∀ before ev after,
       trace (main argv os engine) = before ++ ev :: after →
       is_engine_event ev = true →
       ∃ p, argv !! 1%nat = Some p ∧ is_Some (path_stat os p)
            ∧ EvPathExists p true ∈ before).
Proof.
  destruct argv as [|prog [|p rest]].
  1-2: split; [intros _; reflexivity|];
       intros [|ev' before] ev after; simpl;
       [intros [= <-]; discriminate | intros [= _ Habs]];
       by destruct before.
  rewrite main_args. destruct (path_stat os p) as [kind|] eqn:Hstat.
  - split.
    + intros [Hlen | (p' & [= <-] & Hnone)]; [simpl in Hlen; lia | congruence].
    + intros [|ev' before] ev after; simpl.
      * intros [= <- _]. discriminate.
      * intros [= <- _] _. exists p. repeat split; [by eexists | set_solver].
  - split; [intros _; reflexivity|].
    intros [|ev1 [|ev2 before]] ev after; simpl.
    + intros [= <- _]. discriminate.
    + intros [= _ <- _]. discriminate.
    + intros [= _ _ Habs]. by destruct before.
Qed.

Lemma no_engine_call_on_error_paths_witness :
  engine_calls (trace (main [py "transcribe.py"; py "missing.wav"]
                         (machine ∅) (engine_returning [py "hi"]))) = [].
Proof.
  apply (proj1 (no_engine_call_on_error_paths
                  [py "transcribe.py"; py "missing.wav"]
                  (machine ∅) (engine_returning [py "hi"]))).
  right. exists (py "missing.wav"). split; reflexivity.
Defined.

(** C9: arguments after the first are ignored: the run with further
    arguments is the run with the first argument alone. *)
Theorem extra_arguments_ignored prog p extra os engine :
  main (prog :: p :: extra) os engine = main [prog; p] os engine.
Proof. by rewrite !main_args. Qed.

(** C10, as stated, fails: a file that exists in a directory the process
    may not search is reported as not found, and the engine is never
    reached. *)
Lemma existing_path_reported_missing :
  ¬ (∀ prog p os engine,
       is_Some (path_entry os p) →
       ∃ calls,
         trace (main [prog; p] os engine)
         = EvPathExists p true :: EvImport :: calls).
Proof.
  intros Hclaim.
  destruct (Hclaim (py "transcribe.py") (py "private/talk.wav") (machine ∅)
              (engine_returning [py "hi"])) as [calls Hcalls].
  - by eexists.
  - discriminate Hcalls.
Qed.

(** C10, amended: the check is whether [os.stat] succeeds on the path,
    nothing more.  For a path that [os.stat] reaches, of whatever kind (a
    directory too), the run goes on with [transcribe] on that path, ends
    as [transcribe] does when that raises and prints its result when it
    returns one that standard output can encode, and the script writes
    nothing to stderr.  The line ["File not found: p"] is written exactly
    when [os.stat] fails: for every path that does not exist, and also
    for a dangling link and for a path in a directory closed to the
    process. *)
Theorem file_check_is_stat_only prog p extra os engine :
  let run := main (prog :: p :: extra) os engine in
  (∀ kind,
     path_stat os p = Some kind →
     (∃ rest,
        trace run = EvPathExists p true
                      :: trace (transcribe os engine p) ++ rest
        ∧ engine_calls rest = [])
     ∧ (∀ e, outcome (transcribe os engine p) = Raise e →
             outcome run = Raise e)
     ∧ (∀ result, outcome (transcribe os engine p) = Ok result →
                  written Stdout (trace run)
                  = if stdout_can_encode os result then result ++ [LF]
                    else [])
     ∧ written Stderr (trace run) = [])
  ∧ (written Stderr (trace run) = (py "File not found: " ++ p) ++ [LF]
     ↔ path_stat os p = None)
  ∧ (path_stat os p = None ↔
     path_entry os p = None
     ∨ path_entry os p = Some DanglingSymlink
     ∨ ∃ kind, path_entry os p = Some (Unsearchable kind)).
Proof.
  cbv zeta. rewrite main_args.
  assert (Hsilent : written Stderr
            (trace (printed os (transcribe os engine p))) = []).
  { unfold printed, trace at 1. simpl. rewrite written_app, transcribe_silent.
    destruct (outcome (transcribe os engine p)) as [result|?]; [|done].
    by destruct (stdout_can_encode os result). }
  split; [|split].
  - intros kind ->. split; [|split; [|split]].
    + unfold printed, trace at 1 2. simpl fst. eexists. split; [reflexivity|].
      destruct (outcome (transcribe os engine p)) as [result|?]; [|done].
      by destruct (stdout_can_encode os result).
    + intros e He. unfold printed. by rewrite He.
    + intros result Hresult. unfold printed, trace at 1. simpl fst.
      change (written Stdout (EvPathExists p true :: ?t))
        with (written Stdout t).
      rewrite written_app, transcribe_silent, Hresult.
      destruct (stdout_can_encode os result); simpl; [|done].
      by rewrite app_nil_r.
    + exact Hsilent.
  - destruct (path_stat os p) as [kind|] eqn:Hstat.
    + change (written Stderr (trace (printed os (transcribe os engine p)))
              = (py "File not found: " ++ p) ++ [LF] ↔ Some kind = None).
      rewrite Hsilent. split; [|done].
      intros Habs. symmetry in Habs. by apply app_nil in Habs as [_ ?].
    + split; [done|]. intros _. cbn. by rewrite app_nil_r.
  - unfold path_stat. destruct (path_entry os p) as [[kind| |kind]|].
    + split; [done|]. intros [? | [? | [? ?]]]; discriminate.
    + split; [by right; left | done].
    + split; [by right; right; eexists | done].
    + split; [by left | done].
Qed.

Lemma file_check_is_stat_only_witness :
  path_stat (machine ∅) (py "recordings") = Some Directory
  ∧ ∃ rest,
      trace (main [py "transcribe.py"; py "recordings"] (machine ∅)
               (engine_returning [py "hi"]))
      = EvPathExists (py "recordings") true
          :: trace (transcribe (machine ∅) (engine_returning [py "hi"])
                      (py "recordings")) ++ rest
      ∧ engine_calls rest = [].
Proof.
  assert (Hstat : path_stat (machine ∅) (py "recordings") = Some Directory)
    by reflexivity.
  split; [exact Hstat|].
  apply (proj1 (file_check_is_stat_only (py "transcribe.py")
                  (py "recordings") [] (machine ∅)
                  (engine_returning [py "hi"])) Directory Hstat).
Defined.

(** ** Further facts about [strip] and [join] *)

Section MoreStringFacts.

Implicit Types (s sep : pystr) (parts : list pystr) (c : N).

Lemma visible_app s1 s2 : visible (s1 ++ s2) = visible s1 ++ visible s2.
Proof. apply filter_app. Qed.

Lemma visible_blank s : blank s → visible s = [].
Proof.
  induction s as [|c s IH]; [done|]. rewrite blank_cons. intros [Hc Hs].
  unfold visible. rewrite filter_cons_False by congruence. by apply IH.
Qed.

Lemma visible_strip s : visible (Str.strip s) = visible s.
Proof.
  destruct (strip_decompose s) as (pre & post & Hs & Hpre & Hpost).
  rewrite Hs at 2. rewrite !visible_app.
  by rewrite (visible_blank pre), (visible_blank post), app_nil_r.
Qed.

Lemma visible_join sep parts :
  blank sep → visible (Str.join sep parts) = concat (map visible parts).
Proof.
  intros Hsep. induction parts as [|p [|q parts] IH]; [done| |].
  - simpl. by rewrite app_nil_r.
  - rewrite join_cons, !visible_app, IH, (visible_blank sep) by done.
    reflexivity.
Qed.

Lemma lstrip_fixed c s : Str.isspace c = false → Str.lstrip (c :: s) = c :: s.
Proof. intros Hc. simpl. by rewrite Hc. Qed.

Lemma rstrip_fixed s c :
  last s = Some c → Str.isspace c = false → Str.rstrip s = s.
Proof.
  intros Hlast Hc. induction s as [|d [|d' s] IH]; [done| |].
  - injection Hlast as ->. simpl. by rewrite Hc.
  - change (Str.rstrip (d :: d' :: s))
      with (match Str.rstrip (d' :: s) with
            | [] => if Str.isspace d then [] else [d]
            | r => d :: r
            end).
    by rewrite IH.
Qed.

Lemma rstrip_head c s :
  Str.isspace c = false → ∃ r, Str.rstrip (c :: s) = c :: r.
Proof.
  intros Hc. simpl. destruct (Str.rstrip s); rewrite ?Hc; eauto.
Qed.

Lemma rstrip_last s c : last (Str.rstrip s) = Some c → Str.isspace c = false.
Proof.
  induction s as [|d s IH]; simpl; [done|].
  destruct (Str.rstrip s) as [|d' r] eqn:Hr.
  - destruct (Str.isspace d) eqn:Hd; [done|]. by intros [= <-].
  - intros Hlast. by apply IH.
Qed.

Lemma lstrip_head s :
  Str.lstrip s = [] ∨ ∃ c r, Str.lstrip s = c :: r ∧ Str.isspace c = false.
Proof.
  induction s as [|c s IH]; simpl; [by left|].
  destruct (Str.isspace c) eqn:Hc; [done|]. right. eauto.
Qed.

(** What [strip] returns begins and ends with a visible character. *)
Lemma strip_ends s :
  Str.strip s = [] ∨
  ∃ c r d, Str.strip s = c :: r ∧ Str.isspace c = false
           ∧ last (Str.strip s) = Some d ∧ Str.isspace d = false.
Proof.
  unfold Str.strip.
  destruct (lstrip_head s) as [-> | (c & r & -> & Hc)]; [by left|]. right.
  destruct (rstrip_head c r Hc) as (r' & Hr).
  destruct (last (Str.rstrip (c :: r))) as [d|] eqn:Hlast.
  - exists c, r', d. repeat split; [done..|]. by eapply rstrip_last.
  - rewrite Hr in Hlast. by apply last_None in Hlast.
Qed.

Lemma join_first sep p parts : ∃ rest, Str.join sep (p :: parts) = p ++ rest.
Proof. destruct parts; simpl; [exists []; by rewrite app_nil_r | eauto]. Qed.

Lemma join_last sep parts p :
  ∃ front, Str.join sep (parts ++ [p]) = front ++ p.
Proof.
  induction parts as [|q [|q' parts] IH].
  - by exists [].
  - exists (q ++ sep). simpl. by rewrite <- app_assoc.
  - destruct IH as (front & IH). exists (q ++ sep ++ front).
    change (Str.join sep ((q :: q' :: parts) ++ [p]))
      with (q ++ sep ++ Str.join sep ((q' :: parts) ++ [p])).
    by rewrite IH, <- !app_assoc.
Qed.

Lemma join_app sep parts1 parts2 :
  parts1 ≠ [] → parts2 ≠ [] →
  Str.join sep (parts1 ++ parts2)
  = Str.join sep parts1 ++ sep ++ Str.join sep parts2.
Proof.
  intros H1 H2. induction parts1 as [|p [|q parts1] IH]; [done| |].
  - destruct parts2; [done|]. reflexivity.
  - change (Str.join sep ((p :: q :: parts1) ++ parts2))
      with (p ++ sep ++ Str.join sep ((q :: parts1) ++ parts2)).
    rewrite IH by done. rewrite join_cons. by rewrite <- !app_assoc.
Qed.

Lemma join_all_empty sep parts :
  Forall (λ p, p = []) parts →
  Str.join sep parts = concat (replicate (length parts - 1) sep).
Proof.
  induction 1 as [|p [|q parts] -> Hrest IH]; [done..|].
  rewrite join_cons, IH. simpl. by rewrite Nat.sub_0_r.
Qed.

End MoreStringFacts.

Lemma blank_space : blank (py " ").
Proof. apply blank_cons. split; [reflexivity | apply blank_nil]. Qed.

Lemma concat_replicate_singleton {A : Type} (n : nat) (x : A) :
  concat (replicate n [x]) = replicate n x.
Proof. induction n as [|n IH]; simpl; [done | by rewrite IH]. Qed.

(** ** More about [transcribe] *)

(** The visible characters of the segments all reach the result, in
    order, and the result has no other visible character. *)
Theorem transcribe_keeps_visible_characters os engine audio_path segs :
  engine_yields os engine audio_path segs →
  ∃ result,
    outcome (transcribe os engine audio_path) = Ok result
    ∧ visible result = concat (map (λ segment, visible (text segment)) segs).
Proof.
  intros Hrun. rewrite (transcribe_run _ _ _ _ Hrun). eexists.
  split; [reflexivity|].
  rewrite visible_join by apply blank_space. f_equal.
  rewrite map_map. apply map_ext. intros segment. apply visible_strip.
Qed.

Lemma transcribe_keeps_visible_characters_witness :
  ∃ result,
    outcome (transcribe (machine ∅)
               (engine_returning [py " a b "; py "  "; py "c"])
               (py "sample.wav")) = Ok result
    ∧ visible result = py "abc".
Proof.
  apply (transcribe_keeps_visible_characters (machine ∅)
           (engine_returning [py " a b "; py "  "; py "c"])
           (py "sample.wav")
           (map Build_Segment [py " a b "; py "  "; py "c"])).
  eexists _, _, _. repeat split.
Defined.

(** When the first and the last segment have a visible character, the
    result has no whitespace at either end: stripping it changes
    nothing. *)
Theorem transcribe_result_is_stripped os engine audio_path segs :
  engine_yields os engine audio_path segs →
  (∀ segment,
     head segs = Some segment ∨ last segs = Some segment →
     ¬ blank (text segment)) →
  ∃ result,
    outcome (transcribe os engine audio_path) = Ok result
    ∧ Str.strip result = result.
Proof.
  intros Hrun Hends. rewrite (transcribe_run _ _ _ _ Hrun). eexists.
  split; [reflexivity|].
  set (f := λ segment, Str.strip (text segment)).
  destruct segs as [|first rest]; [done|].
  assert (Hfirst : ∃ c r, f first = c :: r ∧ Str.isspace c = false).
  { destruct (strip_ends (text first)) as [Hnil | (c & r & _ & ? & ? & _)];
      [|by eauto].
    apply strip_nil_iff in Hnil. destruct (Hends first); [by left | done]. }
  destruct Hfirst as (c & r & Hfirst & Hc).
  destruct (join_first (py " ") (f first) (map f rest)) as (tail & Hjoin).
  assert (Hlast : ∃ front d, Str.join (py " ") (map f (first :: rest))
                             = front ++ [d] ∧ Str.isspace d = false).
  { destruct (last (first :: rest)) as [final|] eqn:Hfinal;
      [|by apply last_None in Hfinal].
    pose proof Hfinal as Hsplit. apply last_Some in Hsplit as (init & Hsplit).
    rewrite Hsplit, map_app. simpl.
    destruct (join_last (py " ") (map f init) (f final)) as (front & ->).
    destruct (strip_ends (text final))
      as [Hnil | (_ & _ & d & _ & _ & Hd & Hspace)].
    - apply strip_nil_iff in Hnil. destruct (Hends final); [by right | done].
    - apply last_Some in Hd as (body & Hd). unfold f. rewrite Hd.
      exists (front ++ body), d. by rewrite <- app_assoc. }
  destruct Hlast as (front & d & Hlast & Hd).
  unfold Str.strip. simpl map in *. rewrite Hjoin, Hfirst in *.
  simpl app in *. rewrite (lstrip_fixed c _ Hc).
  apply (rstrip_fixed _ d); [|done].
  rewrite Hlast. apply last_snoc.
Qed.

Lemma transcribe_result_is_stripped_witness :
  ∃ result,
    outcome (transcribe (machine ∅)
               (engine_returning [py " Hi "; py "  "; py " friend  "])
               (py "sample.wav")) = Ok result
    ∧ Str.strip result = result.
Proof.
  apply (transcribe_result_is_stripped (machine ∅)
           (engine_returning [py " Hi "; py "  "; py " friend  "])
           (py "sample.wav")
           (map Build_Segment [py " Hi "; py "  "; py " friend  "])).
  - eexists _, _, _. repeat split.
  - intros segment [[= <-] | [= <-]]; unfold blank; simpl;
      intros Hall; apply Forall_cons in Hall as [_ Hall];
      apply Forall_cons in Hall as [Hvis _]; discriminate Hvis.
Defined.

(** The result for two runs of segments put one after the other is the
    two results with one space between them. *)
Theorem transcribe_concatenation os engine audio_path segs1 segs2
    os1 engine1 audio_path1 os2 engine2 audio_path2 :
  engine_yields os1 engine1 audio_path1 segs1 →
  engine_yields os2 engine2 audio_path2 segs2 →
  engine_yields os engine audio_path (segs1 ++ segs2) →
  segs1 ≠ [] → segs2 ≠ [] →
  ∃ result1 result2,
    outcome (transcribe os1 engine1 audio_path1) = Ok result1
    ∧ outcome (transcribe os2 engine2 audio_path2) = Ok result2
    ∧ outcome (transcribe os engine audio_path)
      = Ok (result1 ++ py " " ++ result2).
Proof.
  intros Hrun1 Hrun2 Hrun Hne1 Hne2.
  rewrite (transcribe_run _ _ _ _ Hrun1), (transcribe_run _ _ _ _ Hrun2),
    (transcribe_run _ _ _ _ Hrun).
  eexists _, _. split; [reflexivity|]. split; [reflexivity|].
  unfold outcome; simpl. f_equal. rewrite map_app. apply join_app.
  - by destruct segs1.
  - by destruct segs2.
Qed.

Lemma transcribe_concatenation_witness :
  ∃ result1 result2,
    outcome (transcribe (machine ∅) (engine_returning [py "Hi"; py "there"])
               (py "sample.wav")) = Ok result1
    ∧ outcome (transcribe (machine ∅) (engine_returning [py "friend"])
                 (py "sample.wav")) = Ok result2
    ∧ outcome (transcribe (machine ∅)
                 (engine_returning [py "Hi"; py "there"; py "friend"])
                 (py "sample.wav"))
      = Ok (result1 ++ py " " ++ result2).
Proof.
  apply (transcribe_concatenation (machine ∅)
           (engine_returning [py "Hi"; py "there"; py "friend"])
           (py "sample.wav")
           (map Build_Segment [py "Hi"; py "there"])
           (map Build_Segment [py "friend"])).
  - eexists _, _, _. repeat split.
  - eexists _, _, _. repeat split.
  - eexists _, _, _. repeat split.
  - discriminate.
  - discriminate.
Defined.

(** ** More about the command line *)

(** Spaces are ASCII: every standard output encodes them. *)
Lemma stdout_encodes_spaces os n :
  stdout_can_encode os (replicate n 32%N) = true.
Proof. induction n as [|n IH]; [done | exact IH]. Qed.

(** When the path exists and the engine raises [e], nothing is caught:
    the run ends with [e] and the script prints nothing on either stream
    (segments yielded before the failure are dropped).  The exit status
    is 130 for a [KeyboardInterrupt], the low byte of the code for a
    [SystemExit], and 1 for every other exception. *)
Theorem main_engine_failure prog p extra os engine e :
  is_Some (path_stat os p) →
  engine_raises os engine p e →
  let run := main (prog :: p :: extra) os engine in
  outcome run = Raise e
  ∧ written Stdout (trace run) = []
  ∧ written Stderr (trace run) = []
  ∧ (e = KeyboardInterrupt → exit_status (outcome run) = 130)
  ∧ (∀ code, e = SystemExit code → - 2 ^ 63 ≤ code < 2 ^ 63 →
             exit_status (outcome run) = code mod 256)
  ∧ ((∀ code, e ≠ SystemExit code) → e ≠ KeyboardInterrupt →
     exit_status (outcome run) = 1).
Proof.
  intros [kind Hstat] Hraises. cbv zeta. rewrite main_args, Hstat.
  apply transcribe_raises in Hraises.
  pose proof (transcribe_silent Stdout os engine p) as Hout.
  pose proof (transcribe_silent Stderr os engine p) as Herr.
  unfold printed. destruct (transcribe os engine p) as [t r].
  unfold trace, outcome in *. cbn [fst snd] in *. subst r.
  cbn [fst snd written]. rewrite app_nil_r.
  split; [done|]. split; [exact Hout|]. split; [exact Herr|].
  split; [by intros ->|]. split.
  - intros code -> [Hlow Hhigh]. unfold exit_status.
    destruct (Z.leb_spec (- 2 ^ 63) code); [|lia].
    destruct (Z.ltb_spec code (2 ^ 63)); [reflexivity | lia].
  - intros Hexit Hint. destruct e as [code| | | |]; simpl; try done.
    by destruct (Hexit code).
Qed.

Lemma main_engine_failure_witness :
  written Stdout
    (trace (main [py "transcribe.py"; py "sample.wav"] (machine ∅)
              (engine_failing_late [py "Hi"; py "there"]
                 (Exception (py "RuntimeError") (py "decode"))))) = []
  ∧ exit_status
      (outcome (main [py "transcribe.py"; py "sample.wav"] (machine ∅)
                  (engine_failing_late [py "Hi"; py "there"]
                     (Exception (py "RuntimeError") (py "decode"))))) = 1.
Proof.
  assert (Hstat : is_Some (path_stat (machine ∅) (py "sample.wav")))
    by (by eexists).
  assert (Hraises : engine_raises (machine ∅)
            (engine_failing_late [py "Hi"; py "there"]
               (Exception (py "RuntimeError") (py "decode")))
            (py "sample.wav")
            (Exception (py "RuntimeError") (py "decode"))).
  { eapply raises_iteration; [reflexivity..|].
    simpl. apply raises_later, raises_later, raises_here. }
  destruct (main_engine_failure (py "transcribe.py") _ [] _ _ _
              Hstat Hraises) as (_ & Hout & _ & _ & _ & Hexit).
  split; [exact Hout|]. by apply Hexit.
Defined.

(** In every run the script writes to at most one stream.  Something is
    written to stdout exactly when the run reaches its end; whenever
    something is written to stderr, stdout is empty, the run ends by
    [sys.exit(1)] and the engine was not called. *)
Theorem main_writes_one_stream argv os engine :
  let run := main argv os engine in
  (written Stdout (trace run) ≠ [] ↔ outcome run = Ok tt)
  ∧ (written Stderr (trace run) ≠ [] →
     written Stdout (trace run) = []
     ∧ outcome run = Raise (SystemExit 1)
     ∧ engine_calls (trace run) = []).
Proof.
  cbv zeta. destruct argv as [|prog [|p extra]].
  1-2: by split; [split|].
  rewrite main_args. destruct (path_stat os p) as [kind|]; [|by split; [split|]].
  pose proof (transcribe_silent Stdout os engine p) as Hout.
  pose proof (transcribe_silent Stderr os engine p) as Herr.
  unfold printed. destruct (transcribe os engine p) as [t [result|e]];
    unfold trace, outcome in *; simpl in *;
    [destruct (stdout_can_encode os result)|];
    rewrite !written_app, Hout, Herr; simpl.
  - split; [split; [done|]|done].
    intros _ Hnil. symmetry in Hnil. rewrite app_nil_r in Hnil.
    by apply app_cons_not_nil in Hnil.
  - split; [split|]; done.
  - split; [split|]; done.
Qed.

Lemma main_writes_one_stream_witness :
  written Stdout
    (trace (main [py "transcribe.py"; py "missing.wav"] (machine ∅)
              (engine_returning [py "hi"]))) = [].
Proof.
  apply (proj2 (main_writes_one_stream
                  [py "transcribe.py"; py "missing.wav"] (machine ∅)
                  (engine_returning [py "hi"]))).
  discriminate.
Defined.

(** The name the script is started under plays no part: the run, usage
    line included, is the same under any [argv[0]]. *)
Theorem program_name_ignored prog prog' args os engine :
  main (prog :: args) os engine = main (prog' :: args) os engine.
Proof. destruct args as [|p extra]; [reflexivity | by rewrite !main_args]. Qed.

(** The engine is called in one order and each call is made at most
    once: the engine calls of a run are an initial part of import, load
    of the requested tier, transcription of the first argument. *)
Theorem engine_called_once_in_order prog p extra os engine :
  engine_calls (trace (main (prog :: p :: extra) os engine))
  `prefix_of` [EvImport;
               EvLoadModel (requested_size os) (py "cpu") (py "int8");
               EvTranscribe p 5].
Proof.
  rewrite main_args.
  destruct (path_stat os p) as [kind|]; [|by apply prefix_nil].
  unfold printed, trace at 1 2. simpl fst. rewrite transcribe_trace.
  destruct (faster_whisper_WhisperModel engine) as [cls|?];
    [destruct (cls _ _ _) as [model|?]|];
    (destruct (outcome (transcribe os engine p)) as [result|?];
      [destruct (stdout_can_encode os result)|]); cbn;
    first [ by exists [] | by eexists [_] | by eexists [_; _] ].
Qed.

(** When the path exists and every segment the engine yields is empty or
    all whitespace, the printed line is made of one space per segment
    after the first. *)
Theorem blank_segments_print_spaces prog p extra os engine segs :
  is_Some (path_stat os p) →
  engine_yields os engine p segs →
  Forall (λ segment, blank (text segment)) segs →
  written Stdout (trace (main (prog :: p :: extra) os engine))
  = replicate (length segs - 1) 32%N ++ [LF].
Proof.
  intros [kind Hstat] Hrun Hblank. rewrite main_args, Hstat.
  unfold printed. rewrite (transcribe_run _ _ _ _ Hrun).
  unfold trace, outcome. cbn [fst snd].
  rewrite join_all_empty.
  - rewrite length_map, (concat_replicate_singleton _ 32%N).
    rewrite stdout_encodes_spaces. cbn. by rewrite app_nil_r.
  - apply Forall_fmap. eapply Forall_impl; [exact Hblank|].
    intros segment Hseg. by apply strip_nil_iff.
Qed.

Lemma blank_segments_print_spaces_witness :
  written Stdout
    (trace (main [py "transcribe.py"; py "sample.wav"] (machine ∅)
              (engine_returning [py " "; py ""; py "  "])))
  = py "  " ++ [LF].
Proof.
  apply (blank_segments_print_spaces (py "transcribe.py") (py "sample.wav")
           [] (machine ∅) (engine_returning [py " "; py ""; py "  "])
           (map Build_Segment [py " "; py ""; py "  "])).
  - by eexists.
  - eexists _, _, _. repeat split.
  - repeat constructor.
Defined.
